(** * CurrentAnsLookup::from_transaction (crates/indexer/src/models/token_models/ans_lookup.rs)

    A shallow embedding of the ANS lookup extraction of the Aptos indexer:
    one API transaction and an optional contract address in, a map from
    (domain, subdomain) to the current lookup record out.

    - [HashMap<CurrentAnsLookupPK, CurrentAnsLookup>] is a [gmap].
    - A Rust [panic!] is a [Fatal] value in the [result] monad; the first
      panic ends the call.
    - [chrono::Utc::now()] is an explicit [Clock]: the sequence of wall-clock
      readings the call observes, indexed by the number of readings taken. *)

From Stdlib Require Import ZArith Ascii Lia.
From stdpp Require Import base gmap strings list fin_maps.

Open Scope string_scope.
Open Scope Z_scope.
Set Warnings "-register-all".

(** ** serde_json::Value *)
Inductive Value :=
| VNull
| VBool (b : bool)
| VNumber (n : Z)
| VString (s : string)
| VArray (l : list Value)
| VObject (kvs : list (string * Value)).

(** A [serde_json::Map] has unique keys; the first binding is the one. *)
Fixpoint lookup_field (k : string) (kvs : list (string * Value)) : option Value :=
  match kvs with
  | [] => None
  | (k', v) :: rest => if String.eqb k k' then Some v else lookup_field k rest
  end.

(** ** Move types of the API *)
Record MoveStructTag := {
  address : string;   (** [inner.address.to_string()] *)
  module : string;
  name : string
}.

Inductive MoveType :=
| MTStruct (inner : MoveStructTag)
| MTOther.

Record Event := {
  typ : MoveType;
  data : Value
}.

Record UserTransactionT := {
  version : Z;        (** [user_txn.info.version.0 : u64] *)
  events : list Event
}.

Inductive Transaction :=
| PendingTransaction
| UserTransaction (user_txn : UserTransactionT)
| GenesisTransaction
| BlockMetadataTransaction
| StateCheckpointTransaction.

(** ** chrono::NaiveDateTime and the wall clock *)
Record NaiveDateTime := mkNaiveDateTime {
  ndt_secs : Z;
  ndt_nsecs : Z
}.

(** [Clock n] is the value of the [n]-th call of [chrono::Utc::now()]. *)
Definition Clock := nat -> NaiveDateTime.

(** ** BigDecimal *)
Record BigDecimal := mkBigDecimal {
  int_val : Z;
  scale : nat      (** value = int_val * 10^(-scale) *)
}.

Definition digit_of (c : ascii) : option Z :=
  let n := nat_of_ascii c in
  if (48 <=? n)%nat && (n <=? 57)%nat then Some (Z.of_nat (n - 48)) else None.

Fixpoint parse_unsigned_decimal (s : string) (mant : Z) (sc : nat)
    (seen_dot : bool) (ndigits : nat) : option BigDecimal :=
  match s with
  | EmptyString =>
      if (ndigits =? 0)%nat then None else Some (mkBigDecimal mant sc)
  | String c rest =>
      if Ascii.eqb c "." then
        if seen_dot then None else parse_unsigned_decimal rest mant sc true ndigits
      else match digit_of c with
           | Some d =>
               parse_unsigned_decimal rest (10 * mant + d)
                 (if seen_dot then S sc else sc) seen_dot (S ndigits)
           | None => None
           end
  end.

(** Modelled from the spec: [BigDecimal::from_str], reached through
    [deserialize_from_string] (aptos_api_types, not under src/): the payload
    carries the expiration time as a decimal numeral in a JSON string. *)
Definition parse_bigdecimal (s : string) : option BigDecimal :=
  match s with
  | String c rest =>
      if Ascii.eqb c "-" then
        d ← parse_unsigned_decimal rest 0 0 false 0;
        Some (mkBigDecimal (- int_val d) (scale d))
      else if Ascii.eqb c "+" then parse_unsigned_decimal rest 0 0 false 0
      else parse_unsigned_decimal s 0 0 false 0
  | EmptyString => None
  end.

(** ** Fatal conditions (the panics of the call) *)
Inductive Fatal :=
| DecodeError (txn_version : Z) (event_type : string) (payload : Value)
| TimestampError (txn_version : Z) (ts : Z).

Inductive result (A : Type) :=
| Ok (a : A)
| Err (e : Fatal).
Arguments Ok {A} a.
Arguments Err {A} e.

Global Instance result_ret : MRet result := fun A a => Ok a.
Global Instance result_bind : MBind result := fun A B f r =>
  match r with Ok a => f a | Err e => Err e end.

(** Modelled from the spec: [bigdecimal_to_u64] (crate::util, not under src/):
    the seconds value converted to an integer, the fractional part dropped. *)
Definition bigdecimal_to_u64 (d : BigDecimal) : Z :=
  Z.quot (int_val d) (10 ^ Z.of_nat (scale d)).

(** The largest second representable by [chrono::NaiveDateTime]
    (+262143-12-31T23:59:59). *)
Definition MAX_TIMESTAMP_SECS : Z := 8210298412799.

(** Modelled from the spec: [parse_timestamp_secs] (crate::util, not under
    src/): an unsigned seconds value becomes the UTC calendar timestamp of
    that epoch second; a value out of range is fatal, tagged with the
    transaction version and the value. *)
Definition parse_timestamp_secs (ts : Z) (version : Z) : result NaiveDateTime :=
  if (0 <=? ts) && (ts <=? MAX_TIMESTAMP_SECS) then Ok (mkNaiveDateTime ts 0)
  else Err (TimestampError version ts).

(** [x as i64] for [x : u64]. *)
Definition u64_as_i64 (x : Z) : Z :=
  if x <? 2 ^ 63 then x else x - 2 ^ 64.

(** ** The event payloads and their serde decoding *)

Record OptionalString := mkOptionalString { vec : list string }.

(** [OptionalString::get_string] *)
Definition get_string (self : OptionalString) : option string :=
  match vec self with
  | [] => None
  | s :: _ => Some s
  end.

Definition decode_string (v : Value) : option string :=
  match v with VString s => Some s | _ => None end.

Fixpoint decode_strings (l : list Value) : option (list string) :=
  match l with
  | [] => Some []
  | v :: rest => s ← decode_string v; ss ← decode_strings rest; Some (s :: ss)
  end.

Definition decode_vec_string (v : Value) : option (list string) :=
  match v with VArray l => decode_strings l | _ => None end.

(** [#[serde(deserialize_with = "deserialize_from_string")] BigDecimal] *)
Definition decode_bigdecimal_from_string (v : Value) : option BigDecimal :=
  match v with VString s => parse_bigdecimal s | _ => None end.

(** Derived [Deserialize] for [struct OptionalString { vec }]: a map with the
    field (other keys ignored) or a sequence of exactly one element. *)
Definition decode_OptionalString (v : Value) : option OptionalString :=
  match v with
  | VObject kvs => x ← lookup_field "vec" kvs; l ← decode_vec_string x; Some (mkOptionalString l)
  | VArray [x] => l ← decode_vec_string x; Some (mkOptionalString l)
  | _ => None
  end.

Module SetNameAddressEventV1.
Record t := mk {
  subdomain_name : OptionalString;
  domain_name : string;
  new_address : OptionalString;
  expiration_time_secs : BigDecimal
}.

(** [serde_json::from_value::<SetNameAddressEventV1>] *)
Definition from_value (v : Value) : option t :=
  match v with
  | VObject kvs =>
      sub ← lookup_field "subdomain_name" kvs ≫= decode_OptionalString;
      dom ← lookup_field "domain_name" kvs ≫= decode_string;
      addr ← lookup_field "new_address" kvs ≫= decode_OptionalString;
      exp ← lookup_field "expiration_time_secs" kvs ≫= decode_bigdecimal_from_string;
      Some (mk sub dom addr exp)
  | VArray [a; b; c; d] =>
      sub ← decode_OptionalString a;
      dom ← decode_string b;
      addr ← decode_OptionalString c;
      exp ← decode_bigdecimal_from_string d;
      Some (mk sub dom addr exp)
  | _ => None
  end.
End SetNameAddressEventV1.

Module RegisterNameEventV1.
Record t := mk {
  subdomain_name : OptionalString;
  domain_name : string;
  expiration_time_secs : BigDecimal
}.

(** [serde_json::from_value::<RegisterNameEventV1>] *)
Definition from_value (v : Value) : option t :=
  match v with
  | VObject kvs =>
      sub ← lookup_field "subdomain_name" kvs ≫= decode_OptionalString;
      dom ← lookup_field "domain_name" kvs ≫= decode_string;
      exp ← lookup_field "expiration_time_secs" kvs ≫= decode_bigdecimal_from_string;
      Some (mk sub dom exp)
  | VArray [a; b; c] =>
      sub ← decode_OptionalString a;
      dom ← decode_string b;
      exp ← decode_bigdecimal_from_string c;
      Some (mk sub dom exp)
  | _ => None
  end.
End RegisterNameEventV1.

Inductive ANSEvent :=
| SetNameAddressEventV1 (inner : SetNameAddressEventV1.t)
| RegisterNameEventV1 (inner : RegisterNameEventV1.t).

(** ** The record and the map *)
Record CurrentAnsLookup := mkCurrentAnsLookup {
  domain : string;
  subdomain : string;
  registered_address : option string;
  last_transaction_version : Z;
  expiration_timestamp : NaiveDateTime;
  inserted_at : NaiveDateTime
}.

Abbreviation CurrentAnsLookupPK := (string * string)%type.
Abbreviation Lookups := (gmap CurrentAnsLookupPK CurrentAnsLookup).

(** ** from_transaction, lines 94-110: classify and decode one event *)
Definition parse_ans_event (txn_version : Z) (event_type : string) (payload : Value)
    : result (option ANSEvent) :=
  if String.eqb event_type "domains::SetNameAddressEventV1" then
    match SetNameAddressEventV1.from_value payload with
    | Some inner => Ok (Some (SetNameAddressEventV1 inner))
    | None => Err (DecodeError txn_version event_type payload)
    end
  else if String.eqb event_type "domains::RegisterNameEventV1" then
    match RegisterNameEventV1.from_value payload with
    | Some inner => Ok (Some (RegisterNameEventV1 inner))
    | None => Err (DecodeError txn_version event_type payload)
    end
  else Ok None.

(** ** from_transaction, lines 112-147: build the record of one event;
    [now] is the value of [chrono::Utc::now()]. *)
Definition lookup_of_event (txn_version : Z) (now : NaiveDateTime) (ans_event : ANSEvent)
    : result CurrentAnsLookup :=
  match ans_event with
  | SetNameAddressEventV1 inner =>
      expiration_timestamp ← parse_timestamp_secs
        (bigdecimal_to_u64 (SetNameAddressEventV1.expiration_time_secs inner)) txn_version;
      Ok {| domain := SetNameAddressEventV1.domain_name inner;
            subdomain := default "" (get_string (SetNameAddressEventV1.subdomain_name inner));
            registered_address := get_string (SetNameAddressEventV1.new_address inner);
            last_transaction_version := txn_version;
            expiration_timestamp := expiration_timestamp;
            inserted_at := now |}
  | RegisterNameEventV1 inner =>
      expiration_timestamp ← parse_timestamp_secs
        (bigdecimal_to_u64 (RegisterNameEventV1.expiration_time_secs inner)) txn_version;
      Ok {| domain := RegisterNameEventV1.domain_name inner;
            subdomain := default "" (get_string (RegisterNameEventV1.subdomain_name inner));
            registered_address := None;
            last_transaction_version := txn_version;
            expiration_timestamp := expiration_timestamp;
            inserted_at := now |}
  end.

(** [format!("{}::{}", inner.module, inner.name)] *)
Definition qualified_type (inner : MoveStructTag) : string :=
  String.append (module inner) (String.append "::" (name inner)).

(** The loop state: the map built so far and the number of clock readings. *)
Abbreviation LoopState := (Lookups * nat)%type.

(** ** from_transaction, lines 81-157: the body of [for event in &user_txn.events] *)
Definition process_event (clock : Clock) (version : Z) (addr : string)
    (acc : LoopState) (event : Event) : result LoopState :=
  match typ event with
  | MTStruct inner =>
      let event_addr := address inner in
      let event_type := qualified_type inner in
      if negb (String.eqb event_addr addr) then Ok acc
      else
        let txn_version := u64_as_i64 version in
        maybe_ans_event ← parse_ans_event txn_version event_type (data event);
        match maybe_ans_event with
        | Some ans_event =>
            current_ans_lookup ← lookup_of_event txn_version (clock acc.2) ans_event;
            Ok (<[(domain current_ans_lookup, subdomain current_ans_lookup)
                   := current_ans_lookup]> acc.1, S acc.2)
        | None => Ok acc
        end
  | MTOther => Ok acc
  end.

Fixpoint fold_events (f : LoopState -> Event -> result LoopState)
    (acc : LoopState) (evs : list Event) : result LoopState :=
  match evs with
  | [] => Ok acc
  | e :: rest => acc' ← f acc e; fold_events f acc' rest
  end.

(** [CurrentAnsLookup::from_transaction] *)
Definition from_transaction (clock : Clock) (transaction : Transaction)
    (ans_contract_address : option string) : result Lookups :=
  match ans_contract_address with
  | Some addr =>
      match transaction with
      | UserTransaction user_txn =>
          st ← fold_events (process_event clock (version user_txn) addr)
                 (∅, 0%nat) (events user_txn);
          Ok st.1
      | _ => Ok ∅
      end
  | None => Ok ∅
  end.

(** ** Concrete inputs *)
Definition ans_addr : string := "0x867ed1f6bf916171b1de3ee92849b8978b7d1b9e0a8cc982a3d19d535dfd9c0c".

Definition ans_event_at (a m n : string) (payload : Value) : Event :=
  {| typ := MTStruct {| address := a; module := m; name := n |}; data := payload |}.

Definition opt_string (l : list string) : Value :=
  VObject [("vec", VArray (map VString l))].

Definition set_name_payload (dom : string) (sub addr : list string) (exp : string) : Value :=
  VObject [("subdomain_name", opt_string sub); ("domain_name", VString dom);
           ("new_address", opt_string addr); ("expiration_time_secs", VString exp)].

Definition register_payload (dom : string) (sub : list string) (exp : string) : Value :=
  VObject [("subdomain_name", opt_string sub); ("domain_name", VString dom);
           ("expiration_time_secs", VString exp)].

Definition set_name_event (dom : string) (sub addr : list string) (exp : string) : Event :=
  ans_event_at ans_addr "domains" "SetNameAddressEventV1" (set_name_payload dom sub addr exp).

Definition register_event (dom : string) (sub : list string) (exp : string) : Event :=
  ans_event_at ans_addr "domains" "RegisterNameEventV1" (register_payload dom sub exp).

Definition user_txn (v : Z) (evs : list Event) : Transaction :=
  UserTransaction {| version := v; events := evs |}.

Definition clock0 : Clock := fun n => mkNaiveDateTime (1690000000 + Z.of_nat n) 0.

(** ** Views of a decoded event used in the statements *)

(** What the loop body does with an event before the clock is read: skip it
    (non-struct type, other address, unknown type), decode it, or fail. *)
Definition decoded_event (version : Z) (addr : string) (event : Event)
    : result (option ANSEvent) :=
  match typ event with
  | MTStruct inner =>
      if negb (String.eqb (address inner) addr) then Ok None
      else parse_ans_event (u64_as_i64 version) (qualified_type inner) (data event)
  | MTOther => Ok None
  end.

Definition event_subdomain_name (ae : ANSEvent) : OptionalString :=
  match ae with
  | SetNameAddressEventV1 inner => SetNameAddressEventV1.subdomain_name inner
  | RegisterNameEventV1 inner => RegisterNameEventV1.subdomain_name inner
  end.

Definition event_domain_name (ae : ANSEvent) : string :=
  match ae with
  | SetNameAddressEventV1 inner => SetNameAddressEventV1.domain_name inner
  | RegisterNameEventV1 inner => RegisterNameEventV1.domain_name inner
  end.

Definition event_expiration_time_secs (ae : ANSEvent) : BigDecimal :=
  match ae with
  | SetNameAddressEventV1 inner => SetNameAddressEventV1.expiration_time_secs inner
  | RegisterNameEventV1 inner => RegisterNameEventV1.expiration_time_secs inner
  end.

(** The address an event asks for: the update's [new_address], none for a
    registration. *)
Definition event_address (ae : ANSEvent) : option string :=
  match ae with
  | SetNameAddressEventV1 inner => get_string (SetNameAddressEventV1.new_address inner)
  | RegisterNameEventV1 _ => None
  end.

Definition event_key (ae : ANSEvent) : CurrentAnsLookupPK :=
  (event_domain_name ae, default "" (get_string (event_subdomain_name ae))).

Definition at_address (addr : string) (event : Event) : bool :=
  match typ event with
  | MTStruct inner => String.eqb (address inner) addr
  | MTOther => false
  end.

Definition fatal_version (e : Fatal) : Z :=
  match e with
  | DecodeError v _ _ => v
  | TimestampError v _ => v
  end.

(** A record with its wall-clock field [inserted_at] left out. *)
Definition without_inserted_at (r : CurrentAnsLookup)
    : string * string * option string * Z * NaiveDateTime :=
  (domain r, subdomain r, registered_address r, last_transaction_version r,
   expiration_timestamp r).

(** ** Further concrete inputs *)
(** The map returned for a transaction, read off by evaluation. *)
Definition returned_map (clock : Clock) (t : Transaction) (a : option string) : Lookups :=
  match from_transaction clock t a with Ok m => m | Err _ => ∅ end.

Definition alice_register : ANSEvent :=
  RegisterNameEventV1 (RegisterNameEventV1.mk (mkOptionalString []) "alice"
                         (mkBigDecimal 1700000000 0)).

Definition alice_set_address : ANSEvent :=
  SetNameAddressEventV1 (SetNameAddressEventV1.mk (mkOptionalString []) "alice"
                           (mkOptionalString ["0xabc"]) (mkBigDecimal 1700000000 0)).

Definition scenario_register_then_update : Transaction :=
  user_txn 42 [register_event "alice" [] "1700000000";
               set_name_event "alice" [] ["0xabc"] "1700000000"].

Definition scenario_map : Lookups :=
  Eval vm_compute in returned_map clock0 scenario_register_then_update (Some ans_addr).

Definition bad_register_event (payload : Value) : Event :=
  ans_event_at ans_addr "domains" "RegisterNameEventV1" payload.

(** A registration payload that also carries address-shaped data. *)
Definition register_with_address_payload : Value :=
  VObject [("subdomain_name", opt_string []); ("domain_name", VString "alice");
           ("new_address", opt_string ["0xabc"]);
           ("expiration_time_secs", VString "1700000000")].

Definition far_future_secs : string := "9999999999999999".

Definition result_fmap {A B} (f : A -> B) (r : result A) : result B :=
  match r with Ok a => Ok (f a) | Err e => Err e end.

Definition scenario_record : CurrentAnsLookup :=
  {| domain := "alice"; subdomain := ""; registered_address := Some "0xabc";
     last_transaction_version := 42;
     expiration_timestamp := mkNaiveDateTime 1700000000 0;
     inserted_at := clock0 1%nat |}.

Definition single_update (v : Z) (dom : string) : Transaction :=
  user_txn v [set_name_event dom [] ["0xabc"] "1700000000"].

(** ** Lemmas on the loop *)

Lemma process_event_unfold clock v addr m n e :
  process_event clock v addr (m, n) e =
    o ← decoded_event v addr e;
    match o with
    | Some ae =>
        r ← lookup_of_event (u64_as_i64 v) (clock n) ae;
        Ok (<[(domain r, subdomain r) := r]> m, S n)
    | None => Ok (m, n)
    end.
Proof.
  unfold process_event, decoded_event.
  destruct (typ e) as [inner|]; [|reflexivity].
  destruct (negb _); [reflexivity|].
  cbn. destruct (parse_ans_event _ _ _) as [[ae|]|err]; reflexivity.
Qed.

Lemma fold_events_app f acc l1 l2 :
  fold_events f acc (l1 ++ l2) = st ← fold_events f acc l1; fold_events f st l2.
Proof.
  revert acc. induction l1 as [|e l1 IH]; intros acc; [reflexivity|].
  cbn. destruct (f acc e); [apply IH|reflexivity].
Qed.

Lemma fold_events_app_ok f acc l1 l2 st :
  fold_events f acc (l1 ++ l2) = Ok st ->
  exists st1, fold_events f acc l1 = Ok st1 /\ fold_events f st1 l2 = Ok st.
Proof.
  rewrite fold_events_app. destruct (fold_events f acc l1) as [st1|]; cbn.
  - eauto.
  - discriminate.
Qed.

Lemma parse_timestamp_secs_ok ts version t :
  parse_timestamp_secs ts version = Ok t -> t = mkNaiveDateTime ts 0.
Proof.
  unfold parse_timestamp_secs. destruct (_ && _); intros H; inversion H; reflexivity.
Qed.

Lemma lookup_of_event_shape txn_version now ae r :
  lookup_of_event txn_version now ae = Ok r ->
  (domain r, subdomain r) = event_key ae /\
  registered_address r = event_address ae /\
  last_transaction_version r = txn_version /\
  expiration_timestamp r =
    mkNaiveDateTime (bigdecimal_to_u64 (event_expiration_time_secs ae)) 0 /\
  inserted_at r = now.
Proof.
  destruct ae as [inner|inner]; cbn;
    destruct (parse_timestamp_secs _ _) as [ts|err] eqn:Hts; cbn;
    intros H; inversion H; subst; clear H;
    apply parse_timestamp_secs_ok in Hts; subst; repeat split.
Qed.

Lemma lookup_of_event_err_version txn_version now ae err :
  lookup_of_event txn_version now ae = Err err -> fatal_version err = txn_version.
Proof.
  unfold lookup_of_event, parse_timestamp_secs.
  destruct ae as [inner|inner];
    match goal with |- context [if ?b then _ else _] => destruct b end;
    cbn; intros H; inversion H; reflexivity.
Qed.

Lemma decoded_event_err_version v addr e err :
  decoded_event v addr e = Err err -> fatal_version err = u64_as_i64 v.
Proof.
  unfold decoded_event, parse_ans_event.
  destruct (typ e) as [inner|]; [|discriminate].
  destruct (negb _); [discriminate|].
  repeat match goal with
         | |- context [if ?b then _ else _] => destruct b
         | |- context [match ?x with Some _ => _ | None => _ end] => destruct x
         end; intros H; inversion H; reflexivity.
Qed.

Section Loop.
Variables (clock : Clock) (v : Z) (addr : string).

Abbreviation step := (process_event clock v addr).

Lemma process_event_err_version acc e err :
  step acc e = Err err -> fatal_version err = u64_as_i64 v.
Proof.
  destruct acc as [m n]. rewrite process_event_unfold.
  destruct (decoded_event v addr e) as [[ae|]|err'] eqn:Hd; cbn.
  - destruct (lookup_of_event (u64_as_i64 v) (clock n) ae) as [r|err'] eqn:Hl; cbn;
      [discriminate|].
    intros H; inversion H; subst. eapply lookup_of_event_err_version; eauto.
  - discriminate.
  - intros H; inversion H; subst. eapply decoded_event_err_version; eauto.
Qed.

Lemma fold_events_err_version evs acc err :
  fold_events step acc evs = Err err -> fatal_version err = u64_as_i64 v.
Proof.
  revert acc. induction evs as [|e evs IH]; intros acc; cbn; [discriminate|].
  destruct (step acc e) as [acc'|err'] eqn:He; cbn.
  - apply IH.
  - intros H; inversion H; subst. eapply process_event_err_version; eauto.
Qed.

(** An event that fails in every loop state makes the whole loop fail. *)
Lemma fold_events_fails evs e acc :
  In e evs -> (forall acc', exists err, step acc' e = Err err) ->
  exists err, fold_events step acc evs = Err err.
Proof.
  revert acc. induction evs as [|e0 evs IH]; intros acc Hin Hfail; [destruct Hin|].
  cbn. destruct (step acc e0) as [acc'|err'] eqn:He; cbn; [|eauto].
  destruct Hin as [<-|Hin].
  - destruct (Hfail acc) as [err Herr]. congruence.
  - eauto.
Qed.

Lemma fold_events_invariant (P : CurrentAnsLookupPK -> CurrentAnsLookup -> Prop) evs :
  (forall e ae now r, In e evs -> decoded_event v addr e = Ok (Some ae) ->
     lookup_of_event (u64_as_i64 v) now ae = Ok r -> P (domain r, subdomain r) r) ->
  forall m n st, map_Forall P m ->
  fold_events step (m, n) evs = Ok st -> map_Forall P st.1.
Proof.
  induction evs as [|e evs IH]; intros HP m n st Hm; cbn.
  - intros H; inversion H; subst; exact Hm.
  - rewrite process_event_unfold.
    destruct (decoded_event v addr e) as [[ae|]|err] eqn:Hd; cbn; [| |discriminate].
    + destruct (lookup_of_event _ _ _) as [r|err] eqn:Hl; cbn; [|discriminate].
      apply IH; [intros; eapply HP; eauto; right; eauto|].
      apply map_Forall_insert_2; [|exact Hm]. eapply HP; eauto. left; reflexivity.
    + apply IH; [intros; eapply HP; eauto; right; eauto|exact Hm].
Qed.

(** Events that decode to no record with key [k] leave the entry of [k] alone. *)
Lemma fold_events_lookup_other evs k m n st :
  (forall e ae, In e evs -> decoded_event v addr e = Ok (Some ae) -> event_key ae <> k) ->
  fold_events step (m, n) evs = Ok st -> st.1 !! k = m !! k.
Proof.
  revert m n. induction evs as [|e evs IH]; intros m n Hk; cbn.
  - intros H; inversion H; reflexivity.
  - rewrite process_event_unfold.
    destruct (decoded_event v addr e) as [[ae|]|err] eqn:Hd; cbn; [| |discriminate].
    + destruct (lookup_of_event _ _ _) as [r|err] eqn:Hl; cbn; [|discriminate].
      intros H. rewrite (IH _ _ (fun e' ae' Hin => Hk e' ae' (or_intror Hin)) H).
      apply lookup_of_event_shape in Hl as [Hkey _].
      rewrite Hkey. apply lookup_insert_ne.
      intros Heq. apply (Hk e ae (or_introl eq_refl) Hd). congruence.
    + apply IH. intros e' ae' Hin. apply Hk. right; exact Hin.
Qed.

(** Events at other addresses are skipped. *)
Lemma fold_events_filter evs acc :
  fold_events step acc evs = fold_events step acc (List.filter (at_address addr) evs).
Proof.
  revert acc. induction evs as [|e evs IH]; intros acc; [reflexivity|].
  cbn [List.filter]. unfold at_address at 1. destruct (typ e) as [inner|] eqn:Ht.
  - destruct (String.eqb (address inner) addr) eqn:Ha; cbn [fold_events].
    + destruct (step acc e); cbn; [apply IH|reflexivity].
    + unfold process_event. rewrite Ht, Ha. cbn. apply IH.
  - cbn. unfold process_event. rewrite Ht. apply IH.
Qed.

End Loop.

Lemma from_transaction_invariant (P : CurrentAnsLookupPK -> CurrentAnsLookup -> Prop)
    clock v evs addr m :
  (forall e ae now r, In e evs -> decoded_event v addr e = Ok (Some ae) ->
     lookup_of_event (u64_as_i64 v) now ae = Ok r -> P (domain r, subdomain r) r) ->
  from_transaction clock (UserTransaction {| version := v; events := evs |}) (Some addr) = Ok m ->
  map_Forall P m.
Proof.
  intros HP. cbn.
  destruct (fold_events _ _ _) as [st|err] eqn:Hf; cbn; [|discriminate].
  intros H; inversion H; subst.
  eapply fold_events_invariant; eauto. apply map_Forall_empty.
Qed.

(** ** Claims *)

(** C1: when two decoded events of one transaction target the same
    (domain, subdomain) key and no later event does, the map holds exactly
    one record under that key and it is the record built from the later event
    alone (its fields are functions of that event, the transaction version
    and the clock reading at that event); in particular its
    [registered_address] is the later event's address, so a registration
    followed by an address update leaves the update's address. *)
Theorem C1_later_event_wins clock v addr pre e1 mid e2 post ae1 ae2 m :
  decoded_event v addr e1 = Ok (Some ae1) ->
  decoded_event v addr e2 = Ok (Some ae2) ->
  event_key ae1 = event_key ae2 ->
  (forall e ae, In e post -> decoded_event v addr e = Ok (Some ae) ->
     event_key ae <> event_key ae2) ->
  from_transaction clock
    (UserTransaction {| version := v; events := pre ++ e1 :: mid ++ e2 :: post |})
    (Some addr) = Ok m ->
  exists now r,
    lookup_of_event (u64_as_i64 v) now ae2 = Ok r /\
    m !! event_key ae2 = Some r /\
    registered_address r = event_address ae2.
Proof.
  intros _ Hd2 _ Hpost. cbn.
  destruct (fold_events _ _ _) as [st|err] eqn:Hf; cbn; [|discriminate].
  intros H; inversion H; subst m; clear H.
  replace (pre ++ e1 :: mid ++ e2 :: post)%list with ((pre ++ e1 :: mid) ++ e2 :: post)%list in Hf
    by (rewrite <- app_assoc; reflexivity).
  apply fold_events_app_ok in Hf as [[m1 n1] [_ Hf]].
  cbn [fold_events] in Hf. rewrite process_event_unfold, Hd2 in Hf. cbn in Hf.
  destruct (lookup_of_event (u64_as_i64 v) (clock n1) ae2) as [r|err] eqn:Hl;
    cbn in Hf; [|discriminate].
  exists (clock n1), r. split; [exact Hl|].
  pose proof (lookup_of_event_shape _ _ _ _ Hl) as [Hkey [Haddr _]].
  split; [|exact Haddr].
  rewrite (fold_events_lookup_other _ _ _ _ _ _ _ _ Hpost Hf). cbn.
  rewrite <- Hkey. apply lookup_insert_eq.
Qed.

Lemma C1_witness :
  exists now r,
    lookup_of_event 42 now alice_set_address = Ok r /\
    scenario_map !! event_key alice_set_address = Some r /\
    registered_address r = Some "0xabc".
Proof.
  apply (C1_later_event_wins clock0 42 ans_addr []
           (register_event "alice" [] "1700000000") []
           (set_name_event "alice" [] ["0xabc"] "1700000000") []
           alice_register alice_set_address scenario_map);
    [vm_compute; reflexivity | vm_compute; reflexivity | vm_compute; reflexivity
    | intros e ae [] | vm_compute; reflexivity].
Defined.

Lemma decoded_event_decode_failure v addr e inner :
  typ e = MTStruct inner -> address inner = addr ->
  (qualified_type inner = "domains::SetNameAddressEventV1" /\
     SetNameAddressEventV1.from_value (data e) = None \/
   qualified_type inner = "domains::RegisterNameEventV1" /\
     RegisterNameEventV1.from_value (data e) = None) ->
  decoded_event v addr e = Err (DecodeError (u64_as_i64 v) (qualified_type inner) (data e)).
Proof.
  intros Ht Ha Hty. unfold decoded_event. rewrite Ht, Ha, String.eqb_refl. cbn.
  unfold parse_ans_event.
  destruct Hty as [[Hq Hv]|[Hq Hv]]; rewrite Hq, Hv; reflexivity.
Qed.

(** C2 (as stated: the abort reports the failing event's payload) fails: when
    an earlier event of the transaction already fails to decode, the call
    aborts with that earlier event's diagnostic. *)
Lemma C2_counterexample :
  let e1 := bad_register_event (VObject []) in
  let e2 := bad_register_event (VObject [("domain_name", VNumber 1)]) in
  RegisterNameEventV1.from_value (data e2) = None /\
  from_transaction clock0 (user_txn 42 [e1; e2]) (Some ans_addr) <>
    Err (DecodeError 42 "domains::RegisterNameEventV1" (data e2)).
Proof. split; vm_compute; [reflexivity | discriminate]. Qed.

(** C2 (amended): an event at the configured address whose qualified type is
    one of the two known ones and whose payload does not decode makes the call
    abort: it never returns a map.  The abort reports the first fatal
    condition in event order; when the events before it raise none, the
    diagnostic is a decode error carrying [txn_version] (the version as the
    code's [i64]), the event type string and this event's raw payload. *)
Theorem C2_decode_failure_is_fatal clock v addr pre e post inner :
  typ e = MTStruct inner -> address inner = addr ->
  (qualified_type inner = "domains::SetNameAddressEventV1" /\
     SetNameAddressEventV1.from_value (data e) = None \/
   qualified_type inner = "domains::RegisterNameEventV1" /\
     RegisterNameEventV1.from_value (data e) = None) ->
  (exists err, from_transaction clock
     (UserTransaction {| version := v; events := pre ++ e :: post |}) (Some addr) = Err err) /\
  (forall st, fold_events (process_event clock v addr) (∅, 0%nat) pre = Ok st ->
     from_transaction clock
       (UserTransaction {| version := v; events := pre ++ e :: post |}) (Some addr) =
     Err (DecodeError (u64_as_i64 v) (qualified_type inner) (data e))).
Proof.
  intros Ht Ha Hty.
  pose proof (decoded_event_decode_failure v addr e inner Ht Ha Hty) as Hd.
  assert (Hstep : forall acc, process_event clock v addr acc e =
            Err (DecodeError (u64_as_i64 v) (qualified_type inner) (data e))).
  { intros [m n]. rewrite process_event_unfold, Hd. reflexivity. }
  split.
  - destruct (fold_events_fails clock v addr (pre ++ e :: post) e (∅, 0%nat))
      as [err Herr].
    + apply in_or_app. right. left. reflexivity.
    + intros acc. eexists. apply Hstep.
    + exists err. cbn. rewrite Herr. reflexivity.
  - intros st Hpre. cbn. rewrite fold_events_app, Hpre. cbn. rewrite Hstep. reflexivity.
Qed.

Lemma C2_witness :
  let e := bad_register_event (VObject []) in
  (exists err, from_transaction clock0
     (UserTransaction {| version := 42; events := [] ++ e :: [] |}) (Some ans_addr) = Err err) /\
  (forall st, fold_events (process_event clock0 42 ans_addr) (∅, 0%nat) [] = Ok st ->
     from_transaction clock0
       (UserTransaction {| version := 42; events := [] ++ e :: [] |}) (Some ans_addr) =
     Err (DecodeError (u64_as_i64 42) "domains::RegisterNameEventV1" (VObject []))).
Proof.
  apply (C2_decode_failure_is_fatal clock0 42 ans_addr [] (bad_register_event (VObject [])) []
           {| address := ans_addr; module := "domains"; name := "RegisterNameEventV1" |});
    [reflexivity | reflexivity | right; split; vm_compute; reflexivity].
Defined.

(** C3: an event whose qualified type is [domains::RegisterNameEventV1]
    produces a record without an address, whatever its payload holds. *)
Theorem C3_register_has_no_address v addr e inner ae now r :
  typ e = MTStruct inner ->
  qualified_type inner = "domains::RegisterNameEventV1" ->
  decoded_event v addr e = Ok (Some ae) ->
  lookup_of_event (u64_as_i64 v) now ae = Ok r ->
  registered_address r = None.
Proof.
  intros Ht Hq Hd Hl.
  apply lookup_of_event_shape in Hl as [_ [Haddr _]]. rewrite Haddr.
  revert Hd. unfold decoded_event. rewrite Ht.
  destruct (negb _); [discriminate|].
  unfold parse_ans_event. rewrite Hq. cbn.
  destruct (RegisterNameEventV1.from_value (data e)); [|discriminate].
  intros H; inversion H; reflexivity.
Qed.

Lemma C3_witness :
  registered_address
    {| domain := "alice"; subdomain := ""; registered_address := None;
       last_transaction_version := 42;
       expiration_timestamp := mkNaiveDateTime 1700000000 0;
       inserted_at := clock0 0%nat |} = None.
Proof.
  apply (C3_register_has_no_address 42 ans_addr
           (bad_register_event register_with_address_payload)
           {| address := ans_addr; module := "domains"; name := "RegisterNameEventV1" |}
           alice_register (clock0 0%nat));
    vm_compute; reflexivity.
Defined.

(** C4: without a configured contract address the map is empty for every
    transaction; with one, the result is the result for the transaction
    restricted to the events whose defining module address equals it. *)
Theorem C4_only_configured_address :
  (forall clock t, from_transaction clock t None = Ok ∅) /\
  (forall clock v evs addr,
     from_transaction clock (UserTransaction {| version := v; events := evs |}) (Some addr) =
     from_transaction clock
       (UserTransaction {| version := v; events := List.filter (at_address addr) evs |})
       (Some addr)).
Proof.
  split; [reflexivity|].
  intros clock v evs addr. cbn. rewrite (fold_events_filter clock v addr). reflexivity.
Qed.

(** C5: the expiration timestamp of a record is the UTC timestamp of the
    event's [expiration_time_secs] taken as whole seconds, the same for both
    event kinds; a value that is no calendar timestamp makes the record fail
    with a timestamp error carrying [txn_version] and the value, and makes the
    whole call fail with a fatal condition tagged with [txn_version]. *)
Theorem C5_expiration_timestamp :
  (forall txn_version now ae r,
     lookup_of_event txn_version now ae = Ok r ->
     expiration_timestamp r =
       mkNaiveDateTime (bigdecimal_to_u64 (event_expiration_time_secs ae)) 0) /\
  (forall txn_version now ae,
     ~ (0 <= bigdecimal_to_u64 (event_expiration_time_secs ae) <= MAX_TIMESTAMP_SECS) ->
     lookup_of_event txn_version now ae =
       Err (TimestampError txn_version (bigdecimal_to_u64 (event_expiration_time_secs ae)))) /\
  (forall clock v evs addr e ae,
     In e evs -> decoded_event v addr e = Ok (Some ae) ->
     ~ (0 <= bigdecimal_to_u64 (event_expiration_time_secs ae) <= MAX_TIMESTAMP_SECS) ->
     exists err,
       from_transaction clock (UserTransaction {| version := v; events := evs |}) (Some addr)
         = Err err /\ fatal_version err = u64_as_i64 v).
Proof.
  assert (Hbad : forall txn_version now ae,
     ~ (0 <= bigdecimal_to_u64 (event_expiration_time_secs ae) <= MAX_TIMESTAMP_SECS) ->
     lookup_of_event txn_version now ae =
       Err (TimestampError txn_version (bigdecimal_to_u64 (event_expiration_time_secs ae)))).
  { intros txn_version now ae Hr.
    assert (Hb : (0 <=? bigdecimal_to_u64 (event_expiration_time_secs ae)) &&
                 (bigdecimal_to_u64 (event_expiration_time_secs ae) <=? MAX_TIMESTAMP_SECS)
                 = false).
    { apply Bool.not_true_iff_false. rewrite Bool.andb_true_iff, !Z.leb_le. exact Hr. }
    destruct ae as [inner|inner]; cbn in *; unfold parse_timestamp_secs; rewrite Hb;
      reflexivity. }
  split; [|split].
  - intros txn_version now ae r Hl. apply lookup_of_event_shape in Hl. apply Hl.
  - exact Hbad.
  - intros clock v evs addr e ae Hin Hd Hr.
    destruct (fold_events_fails clock v addr evs e (∅, 0%nat) Hin) as [err Herr].
    + intros [m n]. rewrite process_event_unfold, Hd. cbn. rewrite Hbad by exact Hr.
      eexists. reflexivity.
    + exists err. split.
      * cbn. rewrite Herr. reflexivity.
      * eapply fold_events_err_version. exact Herr.
Qed.

Lemma C5_witness :
  expiration_timestamp
    {| domain := "alice"; subdomain := ""; registered_address := Some "0xabc";
       last_transaction_version := 42;
       expiration_timestamp := mkNaiveDateTime 1700000000 0;
       inserted_at := clock0 0%nat |} = mkNaiveDateTime 1700000000 0 /\
  lookup_of_event 42 (clock0 0%nat)
    (RegisterNameEventV1 (RegisterNameEventV1.mk (mkOptionalString []) "alice"
                            (mkBigDecimal 9999999999999999 0))) =
    Err (TimestampError 42 9999999999999999) /\
  exists err,
    from_transaction clock0
      (UserTransaction {| version := 42;
                          events := [register_event "alice" [] far_future_secs] |})
      (Some ans_addr) = Err err /\ fatal_version err = u64_as_i64 42.
Proof.
  destruct C5_expiration_timestamp as [H1 [H2 H3]].
  split; [|split].
  - apply (H1 42 (clock0 0%nat) alice_set_address). vm_compute. reflexivity.
  - apply (H2 42 (clock0 0%nat)
             (RegisterNameEventV1 (RegisterNameEventV1.mk (mkOptionalString []) "alice"
                                     (mkBigDecimal 9999999999999999 0)))).
    vm_compute. intros [_ H]. apply H. reflexivity.
  - apply (H3 clock0 42 [register_event "alice" [] far_future_secs] ans_addr
             (register_event "alice" [] far_future_secs)
             (RegisterNameEventV1 (RegisterNameEventV1.mk (mkOptionalString []) "alice"
                                     (mkBigDecimal 9999999999999999 0)))).
    + left. reflexivity.
    + vm_compute. reflexivity.
    + vm_compute. intros [_ H]. apply H. reflexivity.
Defined.

Lemma decode_strings_map_VString l : decode_strings (map VString l) = Some l.
Proof. induction l as [|s l IH]; cbn; [reflexivity|]. rewrite IH. reflexivity. Qed.

(** C6: the subdomain of a record is the empty string when the decoded
    subdomain container holds no string and its first string otherwise; the
    decoded container is the wire-level list itself. *)
Theorem C6_subdomain txn_version now ae r :
  lookup_of_event txn_version now ae = Ok r ->
  (vec (event_subdomain_name ae) = [] -> subdomain r = "") /\
  (forall s rest, vec (event_subdomain_name ae) = s :: rest -> subdomain r = s) /\
  (forall l, decode_OptionalString (opt_string l) = Some (mkOptionalString l)).
Proof.
  intros Hl. apply lookup_of_event_shape in Hl as [Hkey _].
  unfold event_key, get_string in Hkey. injection Hkey as _ Hsub.
  split; [|split].
  - intros Hv. rewrite Hv in Hsub. exact Hsub.
  - intros s rest Hv. rewrite Hv in Hsub. exact Hsub.
  - intros l. cbn. rewrite decode_strings_map_VString. reflexivity.
Qed.

Lemma C6_witness :
  (vec (event_subdomain_name alice_set_address) = [] ->
     subdomain {| domain := "alice"; subdomain := ""; registered_address := Some "0xabc";
                  last_transaction_version := 42;
                  expiration_timestamp := mkNaiveDateTime 1700000000 0;
                  inserted_at := clock0 0%nat |} = "") /\
  (forall s rest, vec (event_subdomain_name alice_set_address) = s :: rest ->
     subdomain {| domain := "alice"; subdomain := ""; registered_address := Some "0xabc";
                  last_transaction_version := 42;
                  expiration_timestamp := mkNaiveDateTime 1700000000 0;
                  inserted_at := clock0 0%nat |} = s) /\
  (forall l, decode_OptionalString (opt_string l) = Some (mkOptionalString l)).
Proof.
  apply (C6_subdomain 42 (clock0 0%nat) alice_set_address). vm_compute. reflexivity.
Defined.

(** C7 (as stated: the version verbatim over all of u64) fails: for version
    2^63 the record holds -2^63, the [u64] cast to [i64]. *)
Lemma C7_counterexample :
  from_transaction clock0 (single_update (2 ^ 63) "alice") (Some ans_addr) =
    Ok (returned_map clock0 (single_update (2 ^ 63) "alice") (Some ans_addr)) /\
  last_transaction_version <$>
    (returned_map clock0 (single_update (2 ^ 63) "alice") (Some ans_addr) !! ("alice", ""))
    = Some (- 2 ^ 63) /\
  - 2 ^ 63 <> 2 ^ 63.
Proof. split; [|split]; [vm_compute; reflexivity | vm_compute; reflexivity | lia]. Qed.

(** C7 (amended): every record's [last_transaction_version] is the
    transaction's version cast from [u64] to [i64] ([txn_version]); for a
    version below 2^63 it is the version itself. *)
Theorem C7_last_transaction_version clock v evs addr m k r :
  from_transaction clock (UserTransaction {| version := v; events := evs |}) (Some addr) = Ok m ->
  m !! k = Some r ->
  last_transaction_version r = u64_as_i64 v /\
  (0 <= v < 2 ^ 63 -> last_transaction_version r = v).
Proof.
  intros Hm Hk.
  assert (Hv : last_transaction_version r = u64_as_i64 v).
  { refine (from_transaction_invariant (fun _ r => last_transaction_version r = u64_as_i64 v)
              clock v evs addr m _ Hm k r Hk).
    intros e ae now r' _ _ Hl. apply lookup_of_event_shape in Hl. apply Hl. }
  split; [exact Hv|].
  intros Hr. rewrite Hv. unfold u64_as_i64.
  destruct (Z.ltb_spec v (2 ^ 63)); [reflexivity|lia].
Qed.

Lemma C7_witness :
  last_transaction_version scenario_record = u64_as_i64 42 /\
  (0 <= 42 < 2 ^ 63 -> last_transaction_version scenario_record = 42).
Proof.
  apply (C7_last_transaction_version clock0 42
           [register_event "alice" [] "1700000000";
            set_name_event "alice" [] ["0xabc"] "1700000000"]
           ans_addr scenario_map ("alice", "")); vm_compute; reflexivity.
Defined.

Lemma lookup_of_event_clock txn_version now1 now2 ae :
  match lookup_of_event txn_version now1 ae, lookup_of_event txn_version now2 ae with
  | Ok r1, Ok r2 => without_inserted_at r1 = without_inserted_at r2
  | Err e1, Err e2 => e1 = e2
  | _, _ => False
  end.
Proof.
  destruct ae as [inner|inner]; cbn;
    destruct (parse_timestamp_secs _ _); reflexivity.
Qed.

Lemma fold_events_clock_ext clock1 clock2 v addr evs acc :
  (forall n, clock1 n = clock2 n) ->
  fold_events (process_event clock1 v addr) acc evs =
  fold_events (process_event clock2 v addr) acc evs.
Proof.
  intros Hc. revert acc. induction evs as [|e evs IH]; intros [m n]; [reflexivity|].
  cbn [fold_events]. rewrite !process_event_unfold, Hc.
  destruct (decoded_event v addr e) as [[ae|]|err]; cbn; [| |reflexivity].
  - destruct (lookup_of_event _ _ _); cbn; [apply IH|reflexivity].
  - apply IH.
Qed.

Lemma fold_events_clock_erase clock1 clock2 v addr evs m1 m2 n :
  without_inserted_at <$> m1 = without_inserted_at <$> m2 ->
  match fold_events (process_event clock1 v addr) (m1, n) evs,
        fold_events (process_event clock2 v addr) (m2, n) evs with
  | Ok st1, Ok st2 => without_inserted_at <$> st1.1 = without_inserted_at <$> st2.1
  | Err e1, Err e2 => e1 = e2
  | _, _ => False
  end.
Proof.
  revert m1 m2 n. induction evs as [|e evs IH]; intros m1 m2 n Hm; [exact Hm|].
  cbn [fold_events]. rewrite !process_event_unfold.
  destruct (decoded_event v addr e) as [[ae|]|err]; cbn; [| |reflexivity].
  - pose proof (lookup_of_event_clock (u64_as_i64 v) (clock1 n) (clock2 n) ae) as Hc.
    destruct (lookup_of_event _ (clock1 n) ae) as [r1|e1];
      destruct (lookup_of_event _ (clock2 n) ae) as [r2|e2]; cbn; try contradiction.
    + apply IH. rewrite !fmap_insert, Hm, Hc.
      unfold without_inserted_at in Hc. injection Hc as Hd Hs _ _ _.
      rewrite Hd, Hs. reflexivity.
    + exact Hc.
  - apply IH. exact Hm.
Qed.

(** C8 (as stated: two invocations with the same inputs return identical
    records) fails: [inserted_at] is read from the wall clock, so two calls at
    different times differ in it. *)
Lemma C8_counterexample :
  from_transaction clock0 scenario_register_then_update (Some ans_addr) <>
  from_transaction (fun n => clock0 (n + 1000)%nat) scenario_register_then_update (Some ans_addr).
Proof.
  intros H.
  apply (f_equal (fun r => match r with
                           | Ok m => inserted_at <$> m !! ("alice", "")
                           | Err _ => None
                           end)) in H.
  vm_compute in H. discriminate H.
Qed.

(** C8 (amended): the call is deterministic up to the wall clock: with the
    same clock readings two calls return the same result, and whatever the
    clock, two calls on the same transaction and address return the same
    fatal error or maps with the same records up to [inserted_at]. *)
Theorem C8_deterministic_up_to_clock clock1 clock2 t a :
  ((forall n, clock1 n = clock2 n) ->
     from_transaction clock1 t a = from_transaction clock2 t a) /\
  result_fmap (fmap without_inserted_at) (from_transaction clock1 t a) =
  result_fmap (fmap without_inserted_at) (from_transaction clock2 t a).
Proof.
  split.
  - intros Hc. destruct a as [addr|]; [|reflexivity].
    destruct t; try reflexivity. cbn. rewrite (fold_events_clock_ext clock1 clock2); auto.
  - destruct a as [addr|]; [|reflexivity].
    destruct t as [|user_txn| | |]; try reflexivity. cbn.
    pose proof (fold_events_clock_erase clock1 clock2 (version user_txn) addr
                  (events user_txn) ∅ ∅ 0%nat eq_refl) as H.
    destruct (fold_events (process_event clock1 _ _) _ _) as [st1|e1];
      destruct (fold_events (process_event clock2 _ _) _ _) as [st2|e2];
      cbn; try contradiction; congruence.
Qed.

Lemma C8_witness :
  ((forall n, clock0 n = clock0 n) ->
     from_transaction clock0 scenario_register_then_update (Some ans_addr) =
     from_transaction clock0 scenario_register_then_update (Some ans_addr)) /\
  result_fmap (fmap without_inserted_at)
    (from_transaction clock0 scenario_register_then_update (Some ans_addr)) =
  result_fmap (fmap without_inserted_at)
    (from_transaction (fun n => clock0 (n + 1000)%nat) scenario_register_then_update
       (Some ans_addr)).
Proof.
  split.
  - apply (C8_deterministic_up_to_clock clock0 clock0 scenario_register_then_update
             (Some ans_addr)).
  - apply (C8_deterministic_up_to_clock clock0 (fun n => clock0 (n + 1000)%nat)
             scenario_register_then_update (Some ans_addr)).
Defined.

(** C9 (as stated: every record's domain is non-empty) fails: the domain is
    the payload's [domain_name], taken unchecked, and may be empty. *)
Lemma C9_counterexample :
  from_transaction clock0 (single_update 42 "") (Some ans_addr) =
    Ok (returned_map clock0 (single_update 42 "") (Some ans_addr)) /\
  domain <$> (returned_map clock0 (single_update 42 "") (Some ans_addr) !! ("", ""))
    = Some "".
Proof. split; vm_compute; reflexivity. Qed.

(** C9 (amended): the domain of every record is the [domain_name] decoded
    from an event of the transaction at the configured address, taken as is;
    nothing checks that it is non-empty. *)
Theorem C9_domain_from_event clock v evs addr m k r :
  from_transaction clock (UserTransaction {| version := v; events := evs |}) (Some addr) = Ok m ->
  m !! k = Some r ->
  exists e ae, In e evs /\ decoded_event v addr e = Ok (Some ae) /\
               domain r = event_domain_name ae.
Proof.
  intros Hm Hk.
  refine (from_transaction_invariant
            (fun _ r => exists e ae, In e evs /\ decoded_event v addr e = Ok (Some ae) /\
                                     domain r = event_domain_name ae)
            clock v evs addr m _ Hm k r Hk).
  intros e ae now r' Hin Hd Hl. exists e, ae. split; [exact Hin|]. split; [exact Hd|].
  apply lookup_of_event_shape in Hl as [Hkey _].
  unfold event_key in Hkey. injection Hkey as Hdom _. exact Hdom.
Qed.

Lemma C9_witness :
  exists e ae,
    In e [register_event "alice" [] "1700000000";
          set_name_event "alice" [] ["0xabc"] "1700000000"] /\
    decoded_event 42 ans_addr e = Ok (Some ae) /\
    domain scenario_record = event_domain_name ae.
Proof.
  apply (C9_domain_from_event clock0 42
           [register_event "alice" [] "1700000000";
            set_name_event "alice" [] ["0xabc"] "1700000000"]
           ans_addr scenario_map ("alice", "")); vm_compute; reflexivity.
Defined.

(** C10: every entry of the returned map is stored under the key
    (domain, subdomain) of its own record. *)
Theorem C10_key_matches_record clock t a m k r :
  from_transaction clock t a = Ok m ->
  m !! k = Some r ->
  k = (domain r, subdomain r).
Proof.
  intros Hm Hk.
  destruct a as [addr|]; [|cbn in Hm; injection Hm as <-; discriminate Hk].
  destruct t as [|[v evs]| | |];
    try (cbn in Hm; injection Hm as <-; discriminate Hk).
  refine (from_transaction_invariant (fun k r => k = (domain r, subdomain r))
            clock v evs addr m _ Hm k r Hk).
  intros. reflexivity.
Qed.

Lemma C10_witness : ("alice", "") = (domain scenario_record, subdomain scenario_record).
Proof.
  apply (C10_key_matches_record clock0 scenario_register_then_update (Some ans_addr)
           scenario_map); vm_compute; reflexivity.
Defined.

(** ** Further properties of from_transaction *)



Lemma process_event_skip clock v addr acc e :
  decoded_event v addr e = Ok None -> process_event clock v addr acc e = Ok acc.
Proof.
  intros Hd. destruct acc as [m n]. rewrite process_event_unfold, Hd. reflexivity.
Qed.

(** X2: an event the loop skips (its type is not a struct, its defining
    address is not the configured one, or its qualified type is neither of the
    two ANS events) can be removed from the transaction without changing the
    result, records, errors and clock readings included. *)
Theorem from_transaction_skip_event clock v addr pre e post :
  decoded_event v addr e = Ok None ->
  from_transaction clock
    (UserTransaction {| version := v; events := pre ++ e :: post |}) (Some addr) =
  from_transaction clock
    (UserTransaction {| version := v; events := pre ++ post |}) (Some addr).
Proof.
  intros Hd. cbn. rewrite !fold_events_app.
  destruct (fold_events _ _ pre) as [st|err]; cbn; [|reflexivity].
  rewrite process_event_skip by exact Hd. reflexivity.
Qed.

Lemma from_transaction_skip_event_witness :
  from_transaction clock0
    (UserTransaction {| version := 42;
                        events := [register_event "alice" [] "1700000000"] ++
                                  ans_event_at ans_addr "other" "Unrelated" VNull ::
                                  [set_name_event "alice" [] ["0xabc"] "1700000000"] |})
    (Some ans_addr) =
  from_transaction clock0
    (UserTransaction {| version := 42;
                        events := [register_event "alice" [] "1700000000"] ++
                                  [set_name_event "alice" [] ["0xabc"] "1700000000"] |})
    (Some ans_addr).
Proof. apply from_transaction_skip_event. vm_compute. reflexivity. Defined.

Lemma fold_events_keeps_keys clock v addr evs m n st k :
  fold_events (process_event clock v addr) (m, n) evs = Ok st ->
  is_Some (m !! k) -> is_Some (st.1 !! k).
Proof.
  revert m n. induction evs as [|e evs IH]; intros m n; cbn.
  - intros H; inversion H; subst; auto.
  - rewrite process_event_unfold.
    destruct (decoded_event v addr e) as [[ae|]|err]; cbn; [| |discriminate].
    + destruct (lookup_of_event _ _ _) as [r|err]; cbn; [|discriminate].
      intros Hf Hk. eapply IH; [exact Hf|]. apply lookup_insert_is_Some'. auto.
    + apply IH.
Qed.

(** X3: when the call returns a map, every event of the transaction that
    decodes to an ANS event has an entry under its (domain, subdomain) key: no
    decoded event is dropped. *)
Theorem from_transaction_complete clock v evs addr m e ae :
  In e evs ->
  decoded_event v addr e = Ok (Some ae) ->
  from_transaction clock (UserTransaction {| version := v; events := evs |}) (Some addr) = Ok m ->
  is_Some (m !! event_key ae).
Proof.
  intros Hin Hd. cbn.
  destruct (fold_events _ _ _) as [st|err] eqn:Hf; cbn; [|discriminate].
  intros H; inversion H; subst m; clear H.
  apply in_split in Hin as (pre & post & ->).
  apply fold_events_app_ok in Hf as [[m1 n1] [_ Hf]].
  cbn [fold_events] in Hf. rewrite process_event_unfold, Hd in Hf. cbn in Hf.
  destruct (lookup_of_event (u64_as_i64 v) (clock n1) ae) as [r|err] eqn:Hl;
    cbn in Hf; [|discriminate].
  eapply fold_events_keeps_keys; [exact Hf|].
  apply lookup_of_event_shape in Hl as [Hkey _]. cbn. rewrite <- Hkey.
  rewrite lookup_insert_eq. eexists; reflexivity.
Qed.

Lemma from_transaction_complete_witness :
  is_Some (scenario_map !! event_key alice_register).
Proof.
  apply (from_transaction_complete clock0 42
           [register_event "alice" [] "1700000000";
            set_name_event "alice" [] ["0xabc"] "1700000000"]
           ans_addr scenario_map (register_event "alice" [] "1700000000"));
    [left; reflexivity | vm_compute; reflexivity | vm_compute; reflexivity].
Defined.

Lemma decoded_event_some_at_address v addr e ae :
  decoded_event v addr e = Ok (Some ae) -> at_address addr e = true.
Proof.
  unfold decoded_event, at_address. destruct (typ e); [|discriminate].
  destruct (String.eqb (address inner) addr); [reflexivity|discriminate].
Qed.

Lemma fold_events_size clock v addr evs m n st :
  fold_events (process_event clock v addr) (m, n) evs = Ok st ->
  (size st.1 <= size m + length (List.filter (at_address addr) evs))%nat.
Proof.
  revert m n. induction evs as [|e evs IH]; intros m n; cbn [fold_events].
  - intros H; inversion H; subst; cbn; lia.
  - rewrite process_event_unfold.
    destruct (decoded_event v addr e) as [[ae|]|err] eqn:Hd; cbn; [| |discriminate].
    + rewrite (decoded_event_some_at_address _ _ _ _ Hd). cbn [length].
      destruct (lookup_of_event _ _ _) as [r|err]; cbn; [|discriminate].
      intros Hf. specialize (IH _ _ Hf).
      rewrite map_size_insert in IH. destruct (m !! _); cbn in IH; lia.
    + intros Hf. specialize (IH _ _ Hf).
      destruct (at_address addr e); cbn [length]; lia.
Qed.

(** X4: the returned map has at most as many entries as the transaction has
    events whose defining address is the configured one. *)
Theorem from_transaction_size clock v evs addr m :
  from_transaction clock (UserTransaction {| version := v; events := evs |}) (Some addr) = Ok m ->
  (size m <= length (List.filter (at_address addr) evs))%nat.
Proof.
  cbn. destruct (fold_events _ _ _) as [st|err] eqn:Hf; cbn; [|discriminate].
  intros H; inversion H; subst m. apply fold_events_size in Hf.
  rewrite map_size_empty in Hf. lia.
Qed.

Lemma from_transaction_size_witness :
  (size scenario_map <=
     length (List.filter (at_address ans_addr)
               [register_event "alice" [] "1700000000";
                set_name_event "alice" [] ["0xabc"] "1700000000"]))%nat.
Proof.
  apply (from_transaction_size clock0 42). vm_compute. reflexivity.
Defined.

Lemma fold_events_union clock v addr evs m0 m n :
  fold_events (process_event clock v addr) (m0 ∪ m, n) evs =
  result_fmap (fun st : LoopState => (st.1 ∪ m, st.2))
    (fold_events (process_event clock v addr) (m0, n) evs).
Proof.
  revert m0 n. induction evs as [|e evs IH]; intros m0 n; [reflexivity|].
  cbn [fold_events]. rewrite !process_event_unfold.
  destruct (decoded_event v addr e) as [[ae|]|err]; cbn; [| |reflexivity].
  - destruct (lookup_of_event _ _ _) as [r|err]; cbn; [|reflexivity].
    rewrite insert_union_l. apply IH.
  - apply IH.
Qed.

Lemma fold_events_clock_erase_gen clock1 clock2 v addr evs m1 m2 n1 n2 :
  without_inserted_at <$> m1 = without_inserted_at <$> m2 ->
  match fold_events (process_event clock1 v addr) (m1, n1) evs,
        fold_events (process_event clock2 v addr) (m2, n2) evs with
  | Ok st1, Ok st2 => without_inserted_at <$> st1.1 = without_inserted_at <$> st2.1
  | Err e1, Err e2 => e1 = e2
  | _, _ => False
  end.
Proof.
  revert m1 m2 n1 n2. induction evs as [|e evs IH]; intros m1 m2 n1 n2 Hm; [exact Hm|].
  cbn [fold_events]. rewrite !process_event_unfold.
  destruct (decoded_event v addr e) as [[ae|]|err]; cbn; [| |reflexivity].
  - pose proof (lookup_of_event_clock (u64_as_i64 v) (clock1 n1) (clock2 n2) ae) as Hc.
    destruct (lookup_of_event _ (clock1 n1) ae) as [r1|e1];
      destruct (lookup_of_event _ (clock2 n2) ae) as [r2|e2]; cbn; try contradiction.
    + apply IH. rewrite !fmap_insert, Hm, Hc.
      unfold without_inserted_at in Hc. injection Hc as Hd Hs _ _ _.
      rewrite Hd, Hs. reflexivity.
    + exact Hc.
  - apply IH. exact Hm.
Qed.

(** X5: processing the events [evs1 ++ evs2] of one transaction gives, up to
    [inserted_at], the map of [evs2] laid over the map of [evs1] (an entry of
    the second part replaces the first part's entry with the same key); the
    call fails exactly when one of the two parts fails, with the first part's
    error first. *)
Theorem from_transaction_app clock v evs1 evs2 addr :
  result_fmap (fmap without_inserted_at)
    (from_transaction clock
       (UserTransaction {| version := v; events := evs1 ++ evs2 |}) (Some addr)) =
  match from_transaction clock (UserTransaction {| version := v; events := evs1 |}) (Some addr),
        from_transaction clock (UserTransaction {| version := v; events := evs2 |}) (Some addr)
  with
  | Ok m1, Ok m2 => Ok ((without_inserted_at <$> m2) ∪ (without_inserted_at <$> m1))
  | Err e, _ => Err e
  | Ok _, Err e => Err e
  end.
Proof.
  cbn. rewrite fold_events_app.
  destruct (fold_events (process_event clock v addr) (∅, 0%nat) evs1)
    as [[m1 n1]|err1]; cbn; [|reflexivity].
  replace m1 with (∅ ∪ m1) at 1 by apply (left_id_L ∅ (∪)).
  rewrite fold_events_union.
  pose proof (fold_events_clock_erase_gen clock clock v addr evs2 ∅ ∅ n1 0%nat eq_refl) as H.
  destruct (fold_events (process_event clock v addr) (∅, n1) evs2) as [st1|e1];
    destruct (fold_events (process_event clock v addr) (∅, 0%nat) evs2) as [st2|e2];
    cbn; try contradiction.
  - rewrite map_fmap_union, H. reflexivity.
  - rewrite H. reflexivity.
Qed.

(** X6: for a version in the [u64] range, every record's
    [last_transaction_version] lies in the [i64] range and is congruent to the
    version modulo 2^64. *)
Theorem last_transaction_version_in_i64_range clock v evs addr m k r :
  0 <= v < 2 ^ 64 ->
  from_transaction clock (UserTransaction {| version := v; events := evs |}) (Some addr) = Ok m ->
  m !! k = Some r ->
  - 2 ^ 63 <= last_transaction_version r < 2 ^ 63 /\
  last_transaction_version r mod 2 ^ 64 = v.
Proof.
  intros Hv Hm Hk.
  assert (Hl : last_transaction_version r = u64_as_i64 v).
  { refine (from_transaction_invariant (fun _ r => last_transaction_version r = u64_as_i64 v)
              clock v evs addr m _ Hm k r Hk).
    intros e ae now r' _ _ Hr. apply lookup_of_event_shape in Hr. apply Hr. }
  rewrite Hl. unfold u64_as_i64.
  destruct (Z.ltb_spec v (2 ^ 63)).
  - split; [lia|]. apply Z.mod_small. lia.
  - split; [lia|].
    replace (v - 2 ^ 64) with (v + (-1) * 2 ^ 64) by lia.
    rewrite Z.mod_add by lia. apply Z.mod_small. lia.
Qed.

Lemma last_transaction_version_in_i64_range_witness :
  - 2 ^ 63 <= last_transaction_version scenario_record < 2 ^ 63 /\
  last_transaction_version scenario_record mod 2 ^ 64 = 42.
Proof.
  apply (last_transaction_version_in_i64_range clock0 42
           [register_event "alice" [] "1700000000";
            set_name_event "alice" [] ["0xabc"] "1700000000"]
           ans_addr scenario_map ("alice", "")); [lia | vm_compute; reflexivity ..].
Defined.

Lemma lookup_of_event_other_now txn_version now now' ae r :
  lookup_of_event txn_version now ae = Ok r ->
  exists r', lookup_of_event txn_version now' ae = Ok r' /\
             without_inserted_at r = without_inserted_at r'.
Proof.
  intros Hl. pose proof (lookup_of_event_clock txn_version now now' ae) as Hc.
  rewrite Hl in Hc. destruct (lookup_of_event txn_version now' ae) as [r'|e'];
    [eauto|contradiction].
Qed.

Lemma fold_events_swap_two clock v addr e1 e2 m0 n0 st :
  (forall a1 a2, decoded_event v addr e1 = Ok (Some a1) ->
     decoded_event v addr e2 = Ok (Some a2) -> event_key a1 <> event_key a2) ->
  fold_events (process_event clock v addr) (m0, n0) [e1; e2] = Ok st ->
  exists st', fold_events (process_event clock v addr) (m0, n0) [e2; e1] = Ok st' /\
              without_inserted_at <$> st.1 = without_inserted_at <$> st'.1.
Proof.
  intros Hne. cbn [fold_events]. rewrite !process_event_unfold.
  destruct (decoded_event v addr e1) as [[a1|]|err1] eqn:Hd1; cbn; [| |discriminate].
  - destruct (lookup_of_event (u64_as_i64 v) (clock n0) a1) as [r1|err] eqn:Hl1;
      cbn; [|discriminate].
    rewrite process_event_unfold.
    destruct (decoded_event v addr e2) as [[a2|]|err2] eqn:Hd2; cbn; [| |discriminate].
    + destruct (lookup_of_event (u64_as_i64 v) (clock (S n0)) a2) as [r2|err] eqn:Hl2;
        cbn; [|discriminate].
      intros H; inversion H; subst st; clear H.
      destruct (lookup_of_event_other_now _ _ (clock n0) _ _ Hl2) as [r2' [Hl2' Hs2]].
      destruct (lookup_of_event_other_now _ _ (clock (S n0)) _ _ Hl1) as [r1' [Hl1' Hs1]].
      rewrite Hl2'. cbn. rewrite ?process_event_unfold, ?Hd1. cbn. rewrite Hl1'. cbn.
      eexists; split; [reflexivity|]. cbn.
      pose proof (lookup_of_event_shape _ _ _ _ Hl1) as [Hk1 _].
      pose proof (lookup_of_event_shape _ _ _ _ Hl2) as [Hk2 _].
      pose proof (lookup_of_event_shape _ _ _ _ Hl1') as [Hk1' _].
      pose proof (lookup_of_event_shape _ _ _ _ Hl2') as [Hk2' _].
      rewrite Hk1, Hk2, Hk1', Hk2', !fmap_insert, Hs1, Hs2.
      apply insert_insert_ne. apply not_eq_sym. apply (Hne a1 a2 eq_refl eq_refl).
    + intros H; inversion H; subst st; clear H.
      rewrite ?process_event_unfold, ?Hd1. cbn. rewrite ?Hl1. cbn.
      eexists; split; reflexivity.
  - rewrite process_event_unfold.
    destruct (decoded_event v addr e2) as [[a2|]|err2] eqn:Hd2; cbn; [| |discriminate].
    + destruct (lookup_of_event (u64_as_i64 v) (clock n0) a2) as [r2|err];
        cbn; [|discriminate].
      intros H; inversion H; subst st; clear H.
      rewrite ?process_event_unfold, ?Hd1. cbn. eexists; split; reflexivity.
    + intros H; inversion H; subst st; clear H.
      rewrite ?process_event_unfold, ?Hd1. cbn. eexists; split; reflexivity.
Qed.

(** X7: two adjacent events that do not decode to ANS events with the same
    (domain, subdomain) key can be swapped: if the call returns a map, it
    returns one for the swapped order too, with the same records up to
    [inserted_at]. *)
Theorem from_transaction_swap clock v addr pre e1 e2 post m :
  (forall a1 a2, decoded_event v addr e1 = Ok (Some a1) ->
     decoded_event v addr e2 = Ok (Some a2) -> event_key a1 <> event_key a2) ->
  from_transaction clock
    (UserTransaction {| version := v; events := pre ++ e1 :: e2 :: post |}) (Some addr) = Ok m ->
  exists m',
    from_transaction clock
      (UserTransaction {| version := v; events := pre ++ e2 :: e1 :: post |}) (Some addr) = Ok m' /\
    without_inserted_at <$> m = without_inserted_at <$> m'.
Proof.
  intros Hne. cbn -[fold_events]. rewrite !fold_events_app.
  destruct (fold_events _ _ pre) as [[m0 n0]|err]; cbn -[fold_events]; [|discriminate].
  change (e1 :: e2 :: post) with ([e1; e2] ++ post)%list.
  change (e2 :: e1 :: post) with ([e2; e1] ++ post)%list.
  rewrite !fold_events_app.
  destruct (fold_events _ (m0, n0) [e1; e2]) as [[m1 n1]|err] eqn:H12;
    cbn -[fold_events]; [|discriminate].
  destruct (fold_events_swap_two clock v addr e1 e2 m0 n0 _ Hne H12)
    as [[m2 n2] [H21 Hs]].
  rewrite H21. cbn -[fold_events].
  pose proof (fold_events_clock_erase_gen clock clock v addr post m1 m2 n1 n2 Hs) as Hp.
  destruct (fold_events _ (m1, n1) post) as [st1|e1'];
    destruct (fold_events _ (m2, n2) post) as [st2|e2']; try contradiction;
    cbn; [|discriminate].
  intros H; inversion H; subst m. eauto.
Qed.

Lemma from_transaction_swap_witness :
  exists m',
    from_transaction clock0
      (UserTransaction {| version := 42;
                          events := [] ++ set_name_event "bob" [] ["0xb0b"] "1700000000" ::
                                    register_event "alice" [] "1700000000" :: [] |})
      (Some ans_addr) = Ok m' /\
    without_inserted_at <$>
      returned_map clock0
        (UserTransaction {| version := 42;
                            events := [] ++ register_event "alice" [] "1700000000" ::
                                      set_name_event "bob" [] ["0xb0b"] "1700000000" :: [] |})
        (Some ans_addr) =
    without_inserted_at <$> m'.
Proof.
  apply (from_transaction_swap clock0 42 ans_addr []
           (register_event "alice" [] "1700000000")
           (set_name_event "bob" [] ["0xb0b"] "1700000000") []).
  - intros a1 a2 H1 H2. vm_compute in H1. vm_compute in H2.
    injection H1 as <-. injection H2 as <-. vm_compute. discriminate.
  - vm_compute. reflexivity.
Defined.

Lemma lookup_field_app_some k kvs extra w :
  lookup_field k kvs = Some w -> lookup_field k (kvs ++ extra) = Some w.
Proof.
  induction kvs as [|[k' w'] kvs IH]; cbn; [discriminate|].
  destruct (String.eqb k k'); [auto|exact IH].
Qed.

Lemma lookup_field_app k kvs extra :
  lookup_field k (kvs ++ extra) =
  match lookup_field k kvs with Some w => Some w | None => lookup_field k extra end.
Proof.
  induction kvs as [|[k' w'] kvs IH]; cbn; [reflexivity|].
  destruct (String.eqb k k'); [reflexivity|exact IH].
Qed.

Ltac found_fields H kvs :=
  rewrite ?lookup_field_app;
  repeat (simpl in H |- *; match type of H with
          | context [lookup_field ?k kvs] => destruct (lookup_field k kvs)
          | context [decode_OptionalString ?w] => destruct (decode_OptionalString w)
          | context [decode_string ?w] => destruct (decode_string w)
          | context [decode_bigdecimal_from_string ?w] =>
              destruct (decode_bigdecimal_from_string w)
          end);
  simpl in *; congruence.

(** X8: a payload object that decodes keeps decoding to the same event when
    further key/value pairs are appended to it: fields the event does not
    declare are ignored. *)
Theorem from_value_extra_fields kvs extra :
  (forall x, SetNameAddressEventV1.from_value (VObject kvs) = Some x ->
     SetNameAddressEventV1.from_value (VObject (kvs ++ extra)) = Some x) /\
  (forall x, RegisterNameEventV1.from_value (VObject kvs) = Some x ->
     RegisterNameEventV1.from_value (VObject (kvs ++ extra)) = Some x).
Proof.
  split; intros x H; cbn in H |- *; found_fields H kvs.
Qed.

Lemma from_value_extra_fields_witness :
  (forall x, SetNameAddressEventV1.from_value
               (set_name_payload "alice" [] ["0xabc"] "1700000000") = Some x ->
     SetNameAddressEventV1.from_value
       (VObject ((match set_name_payload "alice" [] ["0xabc"] "1700000000" with
                  | VObject kvs => kvs | _ => [] end) ++ [("extra", VNull)])) = Some x) /\
  (forall x, RegisterNameEventV1.from_value
               (register_payload "alice" [] "1700000000") = Some x ->
     RegisterNameEventV1.from_value
       (VObject ((match register_payload "alice" [] "1700000000" with
                  | VObject kvs => kvs | _ => [] end) ++ [("extra", VNull)])) = Some x).
Proof.
  destruct (from_value_extra_fields
              (match set_name_payload "alice" [] ["0xabc"] "1700000000" with
               | VObject kvs => kvs | _ => [] end) [("extra", VNull)]) as [H1 _].
  destruct (from_value_extra_fields
              (match register_payload "alice" [] "1700000000" with
               | VObject kvs => kvs | _ => [] end) [("extra", VNull)]) as [_ H2].
  split; [exact H1 | exact H2].
Defined.


(** X10: a transaction whose only event is a well-formed
    [domains::SetNameAddressEventV1] at the configured address, with a valid
    expiration, yields exactly one entry: under (domain_name, first subdomain
    string or ""), the record with the first [new_address] string (if any),
    the version cast to [i64], the expiration second and the first clock
    reading. *)
Theorem single_set_name_event clock v addr dom sub new_addr exp d :
  parse_bigdecimal exp = Some d ->
  0 <= bigdecimal_to_u64 d <= MAX_TIMESTAMP_SECS ->
  from_transaction clock
    (UserTransaction {| version := v;
                        events := [ans_event_at addr "domains" "SetNameAddressEventV1"
                                     (set_name_payload dom sub new_addr exp)] |})
    (Some addr) =
  Ok {[ (dom, default "" (head sub)) :=
          {| domain := dom; subdomain := default "" (head sub);
             registered_address := head new_addr;
             last_transaction_version := u64_as_i64 v;
             expiration_timestamp := mkNaiveDateTime (bigdecimal_to_u64 d) 0;
             inserted_at := clock 0%nat |} ]}.
Proof.
  intros Hd Hr.
  assert (Hb : (0 <=? bigdecimal_to_u64 d) && (bigdecimal_to_u64 d <=? MAX_TIMESTAMP_SECS)
               = true) by (apply Bool.andb_true_iff; split; apply Z.leb_le; lia).
  cbn [from_transaction events version fold_events].
  unfold process_event, ans_event_at. cbn [typ address module name data].
  rewrite String.eqb_refl. cbn [negb].
  unfold set_name_payload, parse_ans_event, qualified_type, opt_string. simpl.
  rewrite !decode_strings_map_VString. simpl. rewrite Hd. simpl.
  unfold parse_timestamp_secs. rewrite Hb. cbn.
  destruct sub, new_addr; reflexivity.
Qed.

Lemma single_set_name_event_witness :
  from_transaction clock0
    (UserTransaction {| version := 42;
                        events := [ans_event_at ans_addr "domains" "SetNameAddressEventV1"
                                     (set_name_payload "alice" ["www"] ["0xabc"; "0xdef"]
                                        "1700000000")] |})
    (Some ans_addr) =
  Ok {[ ("alice", default "" (head ["www"])) :=
          {| domain := "alice"; subdomain := default "" (head ["www"]);
             registered_address := head ["0xabc"; "0xdef"];
             last_transaction_version := u64_as_i64 42;
             expiration_timestamp := mkNaiveDateTime (bigdecimal_to_u64 (mkBigDecimal 1700000000 0)) 0;
             inserted_at := clock0 0%nat |} ]}.
Proof.
  apply single_set_name_event; vm_compute; [reflexivity | split; discriminate].
Defined.
